(** * font-manager: the install / list / uninstall pipeline

    A shallow embedding of [pkg/fm] (the Manager in [manager.go] and the
    FontInstaller) together with the properties its specification states.

    Conventions of the embedding.
    - A Go [string] is the list of the runes that [range] yields on it
      (code points, as [Z]); this is exact for well-formed UTF-8 text.
      [str "..."] turns a literal into such a list.
    - The file system is a tree of directories and files; the entries of a
      directory are kept in the lexical order in which [filepath.Walk]
      visits them.  A directory path is the list of its components (a clean
      absolute path); [pathString] renders it the way Go prints it.
      Permissions, symbolic links and failing devices are not modelled.
    - What lives outside the package (the clock, encoding/json, archive/zip,
      net/url, net/http, the platform adapter, the font sources) is a field
      of a record that the functions take as an argument. *)

From Stdlib Require Import ZArith Ascii String List Bool Lia DecimalString.
From stdpp Require Import base option list gmap.
Import ListNotations.
Set Warnings "-register-all".
Local Open Scope Z_scope.
Local Open Scope list_scope.

(** ** Go strings *)

Abbreviation rune := Z (only parsing).
Abbreviation gostring := (list Z) (only parsing).

Definition rune_of_ascii (a : ascii) : rune := Z.of_N (N_of_ascii a).

Fixpoint str (s : string) : gostring :=
  match s with
  | EmptyString => []
  | String a s' => rune_of_ascii a :: str s'
  end.

Definition ch (s : string) : rune :=
  match s with
  | String a _ => rune_of_ascii a
  | EmptyString => 0
  end.

Definition gostring_eqb (s t : gostring) : bool := bool_decide (s = t).

(** [strings.HasPrefix] *)
Fixpoint strings_HasPrefix (s prefix : gostring) {struct prefix} : bool :=
  match prefix, s with
  | [], _ => true
  | p :: prefix', c :: s' => (c =? p) && strings_HasPrefix s' prefix'
  | _ :: _, [] => false
  end.

(** [strings.HasSuffix] and [strings.TrimSuffix] *)
Definition strings_HasSuffix (s suffix : gostring) : bool :=
  strings_HasPrefix (rev s) (rev suffix).

Definition strings_TrimSuffix (s suffix : gostring) : gostring :=
  if strings_HasSuffix s suffix
  then firstn (length s - length suffix)%nat s
  else s.

(** [unicode.IsSpace]: the White_Space code points. *)
Definition unicode_IsSpace (r : rune) : bool :=
  ((9 <=? r) && (r <=? 13)) || (r =? 32) || (r =? 133) || (r =? 160)
  || (r =? 5760) || ((8192 <=? r) && (r <=? 8202))
  || (r =? 8232) || (r =? 8233) || (r =? 8239) || (r =? 8287) || (r =? 12288).

Fixpoint trimLeftFunc (f : rune -> bool) (s : gostring) : gostring :=
  match s with
  | [] => []
  | c :: s' => if f c then trimLeftFunc f s' else s
  end.

Definition trimRightFunc (f : rune -> bool) (s : gostring) : gostring :=
  rev (trimLeftFunc f (rev s)).

(** [strings.TrimSpace] *)
Definition strings_TrimSpace (s : gostring) : gostring :=
  trimRightFunc unicode_IsSpace (trimLeftFunc unicode_IsSpace s).

(** [strings.Trim s cutset]: both ends are cut while the rune is in the
    cutset (Go trims the right end first). *)
Definition inCutset (cutset : gostring) (r : rune) : bool :=
  existsb (Z.eqb r) cutset.

Definition strings_Trim (s cutset : gostring) : gostring :=
  trimLeftFunc (inCutset cutset) (trimRightFunc (inCutset cutset) s).

(** [strings.Map]: a negative result drops the rune. *)
Definition strings_Map (mapping : rune -> rune) (s : gostring) : gostring :=
  flat_map (fun c => let c' := mapping c in if c' <? 0 then [] else [c']) s.

(** [strings.Split s sep] for a one-rune separator. *)
Fixpoint strings_Split (s : gostring) (sep : rune) : list gostring :=
  match s with
  | [] => [[]]
  | c :: s' =>
      if c =? sep then [] :: strings_Split s' sep
      else match strings_Split s' sep with
           | [] => [[c]]
           | p :: ps => (c :: p) :: ps
           end
  end.

(** [unicode.ToLower], exact on every rune whose lower case is an ASCII
    letter (the capitals, the Kelvin sign, dotted capital I); the isFontFile
    comparison only looks at ASCII results. *)
Definition unicode_ToLower (r : rune) : rune :=
  if (65 <=? r) && (r <=? 90) then r + 32
  else if r =? 8490 then 107
  else if r =? 304 then 105
  else r.

Definition strings_ToLower (s : gostring) : gostring := map unicode_ToLower s.

(** [strings.EqualFold s t] for an ASCII [t]: a rune of [s] matches the
    ASCII rune [c] when it is in the simple-folding orbit of [c]: [c]
    itself, its other case, and for k/K the Kelvin sign, for s/S the long
    s. *)
Definition asciiUpper (c : rune) : rune :=
  if (97 <=? c) && (c <=? 122) then c - 32 else c.

Definition foldsToAscii (r c : rune) : bool :=
  (r =? c)
  || ((r <? 128) && (asciiUpper r =? asciiUpper c))
  || ((r =? 8490) && (asciiUpper c =? 75))
  || ((r =? 383) && (asciiUpper c =? 83)).

Fixpoint strings_EqualFold (s t : gostring) : bool :=
  match s, t with
  | [], [] => true
  | r :: s', c :: t' => foldsToAscii r c && strings_EqualFold s' t'
  | _, _ => false
  end.

(** ** sanitizeFontName *)

Definition dash : rune := 45.

Definition sanitizeRune (r : rune) : rune :=
  if ((97 <=? r) && (r <=? 122)) || ((65 <=? r) && (r <=? 90))
     || ((48 <=? r) && (r <=? 57)) || (r =? 45) || (r =? 95)
  then r else dash.

Definition sanitizeFontName (name : gostring) : gostring :=
  strings_Trim (strings_Map sanitizeRune name) (str "-").

(** The wording of the specification: the characters of [[A-Za-z0-9_-]],
    listed. *)
Definition spec_allowed : gostring :=
  str "ABCDEFGHIJKLMNOPQRSTUVWXYZabcdefghijklmnopqrstuvwxyz0123456789_-".

Definition spec_replace (r : rune) : rune :=
  if bool_decide (r ∈ spec_allowed) then r else dash.

Fixpoint spec_dropDashes (s : gostring) : gostring :=
  match s with
  | [] => []
  | c :: s' => if bool_decide (c = dash) then spec_dropDashes s' else s
  end.

(** "replacing every character outside the class with '-' and then trimming
    all leading and trailing '-'" *)
Definition spec_sanitize (s : gostring) : gostring :=
  rev (spec_dropDashes (rev (spec_dropDashes (map spec_replace s)))).


(** ** Errors

    An error value is either made outside the package ([E_ext], its text
    given) or made by [fmt.Errorf]: the format string, the arguments of the
    [%s], [%q] and [%d] verbs in order, and the error a [%w] or [%v] verb
    prints.  [E_sys] is an [*os.PathError]; [E_many] is the [%v] of a slice
    of errors inside the aggregate of InstallFromConfig. *)

Inductive arg :=
| A_str (s : gostring)
| A_int (z : Z).

Inductive error :=
| E_ext (msg : gostring)
| E_sys (op : string) (p : gostring) (errno : string)
| Errorf (format : string) (args : list arg) (cause : option error)
| E_many (format : string) (errs : list error).

Inductive result (A : Type) :=
| Ok (a : A)
| Err (e : error).
Arguments Ok {A} a.
Arguments Err {A} e.

(** What a call leaves behind: it returns (with or without an error) or
    panics. *)
Inductive outcome :=
| Return (err : option error)
| Panic (msg : string).

(** ** Paths *)

Abbreviation path := (list (list Z)) (only parsing).

Definition slash : rune := 47.
Definition dot : rune := 46.

Definition pathString (p : path) : gostring :=
  match p with
  | [] => [slash]
  | _ => concat (map (fun c => slash :: c) p)
  end.

(** One element of a joined path under [filepath.Clean]. *)
Definition joinStep (p : path) (c : gostring) : path :=
  if gostring_eqb c [] || gostring_eqb c (str ".") then p
  else if gostring_eqb c (str "..") then removelast p
  else p ++ [c].

(** [filepath.Join dir elem] for a clean absolute [dir]. *)
Definition filepath_Join (dir : path) (elem : gostring) : path :=
  fold_left joinStep (strings_Split elem slash) dir.

(** The components of an absolute path string. *)
Definition parsePath (s : gostring) : path := filepath_Join [] s.

Fixpoint takeWhile {A} (f : A -> bool) (l : list A) : list A :=
  match l with
  | [] => []
  | x :: l' => if f x then x :: takeWhile f l' else []
  end.

Definition isSlash (r : rune) : bool := r =? slash.

(** [filepath.Base] *)
Definition filepath_Base (p : gostring) : gostring :=
  match p with
  | [] => str "."
  | _ =>
      let p1 := trimRightFunc isSlash p in
      let p2 := rev (takeWhile (fun c => negb (isSlash c)) (rev p1)) in
      match p2 with
      | [] => [slash]
      | _ => p2
      end
  end.

(** [filepath.Ext]: scans from the end for a dot, stopping at a slash;
    [acc] is the part already passed. *)
Fixpoint extFrom (rs acc : gostring) : gostring :=
  match rs with
  | [] => []
  | c :: rs' =>
      if c =? slash then []
      else if c =? dot then c :: acc
      else extFrom rs' (c :: acc)
  end.

Definition filepath_Ext (p : gostring) : gostring := extFrom (rev p) [].

Definition isFontFile (name : gostring) : bool :=
  let ext := strings_ToLower (filepath_Ext name) in
  gostring_eqb ext (str ".ttf") || gostring_eqb ext (str ".otf").

(** ** The file system *)

Inductive node :=
| File (data : gostring)
| Dir (entries : list (gostring * node)).

(** The order of [sort.Strings]. *)
Fixpoint lex_ltb (a b : gostring) : bool :=
  match a, b with
  | [], [] => false
  | [], _ :: _ => true
  | _ :: _, [] => false
  | x :: a', y :: b' => (x <? y) || ((x =? y) && lex_ltb a' b')
  end.

Fixpoint entry_lookup (c : gostring) (es : list (gostring * node)) : option node :=
  match es with
  | [] => None
  | (c', n) :: es' => if gostring_eqb c c' then Some n else entry_lookup c es'
  end.

Fixpoint entry_insert (c : gostring) (n : node) (es : list (gostring * node))
  : list (gostring * node) :=
  match es with
  | [] => [(c, n)]
  | (c', n') :: es' =>
      if gostring_eqb c c' then (c, n) :: es'
      else if lex_ltb c c' then (c, n) :: es
      else (c', n') :: entry_insert c n es'
  end.

Fixpoint entry_delete (c : gostring) (es : list (gostring * node))
  : list (gostring * node) :=
  match es with
  | [] => []
  | (c', n') :: es' =>
      if gostring_eqb c c' then es' else (c', n') :: entry_delete c es'
  end.

Fixpoint fs_lookup (p : path) (n : node) : option node :=
  match p with
  | [] => Some n
  | c :: p' =>
      match n with
      | Dir es =>
          match entry_lookup c es with
          | Some m => fs_lookup p' m
          | None => None
          end
      | File _ => None
      end
  end.

(** [os.MkdirAll]: fails when a component of the path is a file. *)
Fixpoint os_MkdirAll (p : path) (n : node) : option node :=
  match n with
  | File _ => None
  | Dir es =>
      match p with
      | [] => Some n
      | c :: p' =>
          let child := match entry_lookup c es with
                       | Some m => m
                       | None => Dir []
                       end in
          match os_MkdirAll p' child with
          | Some m' => Some (Dir (entry_insert c m' es))
          | None => None
          end
      end
  end.

(** [os.Create] followed by writing [data] (also [os.WriteFile]): the
    parent must be a directory and the target must not be one. *)
Fixpoint os_WriteFile (p : path) (data : gostring) (n : node) : option node :=
  match p, n with
  | [c], Dir es =>
      match entry_lookup c es with
      | Some (Dir _) => None
      | _ => Some (Dir (entry_insert c (File data) es))
      end
  | c :: p', Dir es =>
      match entry_lookup c es with
      | Some m =>
          match os_WriteFile p' data m with
          | Some m' => Some (Dir (entry_insert c m' es))
          | None => None
          end
      | None => None
      end
  | _, _ => None
  end.

(** [os.ReadFile] *)
Definition os_ReadFile (p : path) (n : node) : option gostring :=
  match fs_lookup p n with
  | Some (File data) => Some data
  | _ => None
  end.

(** [os.RemoveAll]: a path that does not exist is no error. *)
Fixpoint os_RemoveAll (p : path) (n : node) : node :=
  match p, n with
  | [], Dir _ => Dir []
  | [c], Dir es => Dir (entry_delete c es)
  | c :: p', Dir es =>
      match entry_lookup c es with
      | Some m => Dir (entry_insert c (os_RemoveAll p' m) es)
      | None => n
      end
  | _, _ => n
  end.

(** ** Fonts, sources, the platform, the outside world *)

Record Font := {
  Name : gostring;
  Source : gostring;
  URL : gostring;
  Meta : gmap (list Z) (list Z)
}.

(** The [Source] interface. *)
Record FontSource := {
  src_Name : gostring;
  Search : gostring -> result (list Font);
  Download : Font -> result gostring
}.

Record FontPaths := {
  SystemDir : path;
  UserDir : path
}.

(** [platform.Manager] *)
Record platform_Manager := {
  GetFontPaths : result FontPaths;
  UpdateFontCache : option error
}.

Record zip_File := {
  zf_Name : gostring;
  zf_IsDir : bool;
  zf_Data : gostring
}.

Record http_Response := {
  StatusCode : Z;
  Body : gostring
}.

Record World := {
  (** [time.Now().Format(time.RFC3339)] *)
  time_Now : gostring;
  (** [json.Marshal] and [json.Unmarshal] on a [map[string]string] *)
  json_Marshal : gmap (list Z) (list Z) -> gostring;
  json_Unmarshal : gostring -> option (gmap (list Z) (list Z));
  (** [zip.NewReader]: the entries of the archive *)
  zip_NewReader : gostring -> result (list zip_File);
  (** [url.Parse]: the [Path] of the parsed URL *)
  url_Parse : gostring -> result gostring;
  (** the GET of the direct-URL path; [Err] is a transport error *)
  http_Get : gostring -> result http_Response
}.

Record FontInstaller := {
  fontDir : path;
  cacheCmd : gostring
}.

Record DefaultManager := {
  sources : list FontSource;
  installer : FontInstaller;
  platform : platform_Manager
}.

Definition NewFontInstaller (dir : path) : FontInstaller :=
  {| fontDir := dir; cacheCmd := str "fc-cache" |}.

(** [NewManagerWithPlatform]; [None] is its panic. *)
Definition NewManagerWithPlatform (p : platform_Manager) : option DefaultManager :=
  match GetFontPaths p with
  | Err _ => None
  | Ok paths =>
      Some {| sources := [];
              installer := NewFontInstaller (UserDir paths);
              platform := p |}
  end.

Definition UpdateCache (m : DefaultManager) : option error :=
  UpdateFontCache (platform m).

(** ** filepath.Walk *)

Record FileInfo := {
  fi_Name : gostring;
  fi_IsDir : bool
}.

Inductive ctl :=
| Continue
| SkipDir
| Stop (e : error).

Definition lastName (p : path) : gostring :=
  match rev p with
  | c :: _ => c
  | [] => [slash]
  end.

Section Walk.
Context {S : Type}.
(** The callback: path, file info, the error of the lstat (if any) and
    the variables it closes over. *)
Variable walkFn : path -> FileInfo -> option error -> S -> S * ctl.

Fixpoint walk (p : path) (name : gostring) (n : node) (s : S) : S * ctl :=
  match n with
  | File _ => walkFn p {| fi_Name := name; fi_IsDir := false |} None s
  | Dir es =>
      match walkFn p {| fi_Name := name; fi_IsDir := true |} None s with
      | (s1, Continue) =>
          (fix loop (es : list (gostring * node)) (s : S) : S * ctl :=
             match es with
             | [] => (s, Continue)
             | (c, m) :: es' =>
                 match walk (p ++ [c]) c m s with
                 | (s', Continue) => loop es' s'
                 | (s', SkipDir) =>
                     match m with
                     | Dir _ => loop es' s'
                     | File _ => (s', SkipDir)
                     end
                 | (s', Stop e) => (s', Stop e)
                 end
             end) es s1
      | r => r
      end
  end.

Definition filepath_Walk (root : path) (fs : node) (s : S) : S * option error :=
  let r :=
    match fs_lookup root fs with
    | None =>
        walkFn root {| fi_Name := []; fi_IsDir := false |}
          (Some (E_sys "lstat" (pathString root) "no such file or directory")) s
    | Some n => walk root (lastName root) n s
    end in
  match r with
  | (s', Stop e) => (s', Some e)
  | (s', _) => (s', None)
  end.
End Walk.

(** ** The installer *)

Definition hidden (name : gostring) : bool :=
  strings_HasPrefix (filepath_Base name) (str ".").

Definition isLicense (name : gostring) : bool :=
  strings_EqualFold (filepath_Base name) (str "LICENSE").

(** [extractFontFile]: the entry is written under its base name. *)
Definition extractFontFile (file : zip_File) (destPath : path) (fs : node)
  : result node :=
  let destFile := filepath_Join destPath (filepath_Base (zf_Name file)) in
  match os_WriteFile destFile (zf_Data file) fs with
  | Some fs' => Ok fs'
  | None =>
      Err (Errorf "creating destination file: %w" []
             (Some (E_sys "open" (pathString destFile) "is a directory")))
  end.

(** The loop of [Install] over the entries of the archive; the result is
    the file system reached and either the error returned from inside the
    loop or the value of [installed] after it. *)
Fixpoint extractEntries (files : list zip_File) (fontPath : path) (fs : node)
    (installed : bool) : node * result bool :=
  match files with
  | [] => (fs, Ok installed)
  | file :: rest =>
      if zf_IsDir file || hidden (zf_Name file)
      then extractEntries rest fontPath fs installed
      else
        let r1 :=
          if isFontFile (zf_Name file)
          then match extractFontFile file fontPath fs with
               | Ok fs' => (fs', Ok true)
               | Err e =>
                   (fs, Err (Errorf "extracting font file %s: %w"
                               [A_str (zf_Name file)] (Some e)))
               end
          else (fs, Ok installed) in
        match r1 with
        | (fs1, Err e) => (fs1, Err e)
        | (fs1, Ok installed1) =>
            if isLicense (zf_Name file)
            then match extractFontFile file fontPath fs1 with
                 | Ok fs2 => extractEntries rest fontPath fs2 installed1
                 | Err e =>
                     (fs1, Err (Errorf "extracting license file: %w" [] (Some e)))
                 end
            else extractEntries rest fontPath fs1 installed1
        end
  end.

Definition writeSidecar (p : path) (data : gostring) (what : string) (fs : node)
  : result node :=
  match os_WriteFile p data fs with
  | Some fs' => Ok fs'
  | None => Err (Errorf what [] (Some (E_sys "open" (pathString p) "is a directory")))
  end.

(** [storeMetadata] *)
Definition storeMetadata (w : World) (fontPath : path) (font : Font) (fs : node)
  : node * option error :=
  let r1 :=
    if negb (gostring_eqb (Source font) [])
    then writeSidecar (filepath_Join fontPath (str ".source")) (Source font)
           "writing source metadata: %w" fs
    else Ok fs in
  match r1 with
  | Err e => (fs, Some e)
  | Ok fs1 =>
      let r2 :=
        if (0 <? size (Meta font))%nat
        then writeSidecar (filepath_Join fontPath (str ".metadata"))
               (json_Marshal w (Meta font)) "writing metadata file: %w" fs1
        else Ok fs1 in
      match r2 with
      | Err e => (fs1, Some e)
      | Ok fs2 =>
          match writeSidecar (filepath_Join fontPath (str ".installed"))
                  (time_Now w) "writing installation timestamp: %w" fs2 with
          | Err e => (fs2, Some e)
          | Ok fs3 => (fs3, None)
          end
      end
  end.

(** [FontInstaller.Install]; [data] is what the reader delivers. *)
Definition FontInstaller_Install (w : World) (fi : FontInstaller) (font : Font)
    (data : gostring) (fs : node) : node * option error :=
  let fontPath := filepath_Join (fontDir fi) (sanitizeFontName (Name font)) in
  match os_MkdirAll fontPath fs with
  | None =>
      (fs, Some (Errorf "creating font directory: %w" []
                   (Some (E_sys "mkdir" (pathString fontPath) "not a directory"))))
  | Some fs1 =>
      match zip_NewReader w data with
      | Err e => (fs1, Some (Errorf "reading zip data: %w" [] (Some e)))
      | Ok files =>
          match extractEntries files fontPath fs1 false with
          | (fs2, Err e) => (fs2, Some e)
          | (fs2, Ok installed) =>
              if negb installed
              then (fs2, Some (Errorf "no valid font files found in archive" [] None))
              else
                match storeMetadata w fontPath font fs2 with
                | (fs3, Some e) =>
                    (fs3, Some (Errorf "storing font metadata: %w" [] (Some e)))
                | (fs3, None) => (fs3, None)
                end
          end
      end
  end.

(** [FontInstaller.Uninstall] *)
Definition FontInstaller_Uninstall (fi : FontInstaller) (fontName : gostring)
    (fs : node) : node * option error :=
  let fontPath := filepath_Join (fontDir fi) (sanitizeFontName fontName) in
  match fs_lookup fontPath fs with
  | None => (fs, Some (Errorf "font %s is not installed" [A_str fontName] None))
  | Some _ => (os_RemoveAll fontPath fs, None)
  end.

(** [FontInstaller.IsInstalled] *)
Definition hasFontsFn (p : path) (info : FileInfo) (err : option error)
    (hasFonts : bool) : bool * ctl :=
  match err with
  | Some e => (hasFonts, Stop e)
  | None =>
      if negb (fi_IsDir info) && isFontFile (fi_Name info)
      then (true, SkipDir)
      else (hasFonts, Continue)
  end.

Definition FontInstaller_IsInstalled (fi : FontInstaller) (fontName : gostring)
    (fs : node) : bool :=
  let fontPath := filepath_Join (fontDir fi) (sanitizeFontName fontName) in
  match fs_lookup fontPath fs with
  | None => false
  | Some _ =>
      match filepath_Walk hasFontsFn fontPath fs false with
      | (_, Some _) => false
      | (hasFonts, None) => hasFonts
      end
  end.

(** ** The manager: listing *)

Definition filepath_Dir (p : path) : path := removelast p.

(** [filepath.Rel base targ] on clean absolute paths, as the list
    [strings.Split] makes of it. *)
Fixpoint filepath_Rel (base targ : path) : path :=
  match base, targ with
  | b :: base', t :: targ' =>
      if gostring_eqb b t then filepath_Rel base' targ'
      else map (fun _ => str "..") base ++ targ
  | _, _ => map (fun _ => str "..") base ++ targ
  end.

Definition relParts (base targ : path) : list gostring :=
  match filepath_Rel base targ with
  | [] => [str "."]
  | parts => parts
  end.

Definition fontNameOf (dir p : path) (info : FileInfo) : gostring :=
  let fontName := hd [] (relParts dir (filepath_Dir p)) in
  if gostring_eqb fontName (str ".")
  then strings_TrimSuffix (fi_Name info) (filepath_Ext (fi_Name info))
  else fontName.

(** The font object [listFontsInDir] builds from the sidecar files next to
    the font file at [p]. *)
Definition readFont (w : World) (fs : node) (fontName : gostring) (p : path) : Font :=
  let fontDir := filepath_Dir p in
  let source :=
    match os_ReadFile (filepath_Join fontDir (str ".source")) fs with
    | Some sourceBytes => strings_TrimSpace sourceBytes
    | None => []
    end in
  let meta0 : gmap (list Z) (list Z) := ∅ in
  let meta1 :=
    match os_ReadFile (filepath_Join fontDir (str ".installed")) fs with
    | Some timestampBytes =>
        <[str "installed_at" := strings_TrimSpace timestampBytes]> meta0
    | None => meta0
    end in
  let meta2 :=
    match os_ReadFile (filepath_Join fontDir (str ".metadata")) fs with
    | Some metadataBytes =>
        match json_Unmarshal w metadataBytes with
        | Some additionalMeta => additionalMeta ∪ meta1
        | None => meta1
        end
    | None => meta1
    end in
  let meta3 := <[str "path" := pathString p]> meta2 in
  let meta4 := <[str "directory" := pathString fontDir]> meta3 in
  {| Name := fontName; Source := source; URL := []; Meta := meta4 |}.

Definition hasName (fontName : gostring) (fonts : list Font) : bool :=
  existsb (fun existing => gostring_eqb (Name existing) fontName) fonts.

(** The callback of the walk in [listFontsInDir]. *)
Definition listFn (w : World) (dir : path) (fs : node)
    (p : path) (info : FileInfo) (err : option error) (fonts : list Font)
  : list Font * ctl :=
  match err with
  | Some e => (fonts, Stop e)
  | None =>
      if fi_IsDir info || negb (isFontFile (fi_Name info))
      then (fonts, Continue)
      else
        let fontName := fontNameOf dir p info in
        if hasName fontName fonts then (fonts, Continue)
        else (fonts ++ [readFont w fs fontName p], Continue)
  end.

Definition listFontsInDir (w : World) (dir : path) (fs : node) : result (list Font) :=
  match filepath_Walk (listFn w dir fs) dir fs [] with
  | (_, Some e) =>
      Err (Errorf "walking directory %s: %w" [A_str (pathString dir)] (Some e))
  | (fonts, None) => Ok fonts
  end.

Definition List (w : World) (m : DefaultManager) (fs : node) : result (list Font) :=
  match GetFontPaths (platform m) with
  | Err e => Err (Errorf "getting font paths: %w" [] (Some e))
  | Ok paths =>
      match listFontsInDir w (UserDir paths) fs with
      | Err e => Err (Errorf "listing user fonts: %w" [] (Some e))
      | Ok userFonts =>
          match listFontsInDir w (SystemDir paths) fs with
          | Ok systemFonts => Ok (userFonts ++ systemFonts)
          | Err _ => Ok userFonts
          end
      end
  end.

Definition sameFont (name : gostring) (font : Font) : bool :=
  gostring_eqb (sanitizeFontName (Name font)) (sanitizeFontName name).

Definition IsInstalled (w : World) (m : DefaultManager) (name : gostring) (fs : node)
  : result bool :=
  match List w m fs with
  | Err e => Err (Errorf "checking installation status: %w" [] (Some e))
  | Ok fonts => Ok (existsb (sameFont name) fonts)
  end.

(** ** The manager: installing *)

(** The display name [getFontNameFromURL] derives from the path of the
    parsed URL. *)
Definition nameFromPath (upath : gostring) : gostring :=
  let parts := strings_Split upath slash in
  let filename := List.last parts [] in
  let name := strings_TrimSuffix filename (str ".zip") in
  let name := strings_TrimSuffix name (str ".ttf") in
  let name := strings_TrimSuffix name (str ".otf") in
  name.

(** [getFontNameFromURL]; [None] is the nil dereference after a failed
    [url.Parse] (the error is dropped and [u.Path] read). *)
Definition getFontNameFromURL (w : World) (urlStr : gostring) : option gostring :=
  match url_Parse w urlStr with
  | Err _ => None
  | Ok upath => Some (nameFromPath upath)
  end.

Definition isURL (s : gostring) : bool :=
  strings_HasPrefix s (str "http://") || strings_HasPrefix s (str "https://").

Definition at_sign : rune := 64.

(** [ParseFontSpec]: [Ok None] is the skipped line. *)
Definition ParseFontSpec (w : World) (line : gostring) : result (option Font) :=
  let line := strings_TrimSpace line in
  if gostring_eqb line [] || strings_HasPrefix line (str "#") then Ok None
  else if isURL line then
    match url_Parse w line with
    | Err e => Err (Errorf "invalid URL: %w" [] (Some e))
    | Ok upath =>
        (* getFontNameFromURL parses the same string again *)
        Ok (Some {| Name := nameFromPath upath; Source := str "url";
                    URL := line; Meta := ∅ |})
    end
  else
    let parts := strings_Split line at_sign in
    let name := strings_TrimSpace (hd [] parts) in
    let source :=
      match parts with
      | _ :: p1 :: _ => strings_TrimSpace p1
      | _ => []
      end in
    Ok (Some {| Name := name; Source := source; URL := []; Meta := ∅ |}).

(** [installFromSource] *)
Definition installFromSource (w : World) (m : DefaultManager) (name : gostring)
    (source : FontSource) (fs : node) : node * option error :=
  match Search source name with
  | Err e =>
      (fs, Some (Errorf "searching in %s: %w" [A_str (src_Name source)] (Some e)))
  | Ok [] =>
      (fs, Some (Errorf "font not found in %s" [A_str (src_Name source)] None))
  | Ok (font0 :: _) =>
      match Download source font0 with
      | Err e =>
          (fs, Some (Errorf "downloading from %s: %w" [A_str (src_Name source)] (Some e)))
      | Ok data =>
          match FontInstaller_Install w (installer m) font0 data fs with
          | (fs', Some e) => (fs', Some (Errorf "installing font: %w" [] (Some e)))
          | (fs', None) => (fs', UpdateCache m)
          end
      end
  end.

(** The fan-out loop of [Install]: the file system reached, whether the
    loop returned nil from inside, and [lastErr]. *)
Fixpoint trySources (w : World) (m : DefaultManager) (fontName : gostring)
    (srcs : list FontSource) (fs : node) (lastErr : option error)
  : node * bool * option error :=
  match srcs with
  | [] => (fs, false, lastErr)
  | source :: rest =>
      match installFromSource w m fontName source fs with
      | (fs', None) => (fs', true, lastErr)
      | (fs', Some e) => trySources w m fontName rest fs' (Some e)
      end
  end.

Definition findSource (sourceName : gostring) (srcs : list FontSource)
  : option FontSource :=
  find (fun source => gostring_eqb (src_Name source) sourceName) srcs.

(** The [@] form of a name: the font name and the source name ([[]] when
    no source is given). *)
Definition splitSource (name : gostring) : gostring * gostring :=
  match strings_Split name at_sign with
  | p0 :: p1 :: _ => (strings_TrimSpace p0, strings_TrimSpace p1)
  | _ => (name, [])
  end.

(** [Install].  The request of the direct-URL path cannot fail to be
    created once [getFontNameFromURL] has parsed the same string. *)
Definition Install (w : World) (m : DefaultManager) (name : gostring) (fs : node)
  : node * outcome :=
  match IsInstalled w m name fs with
  | Err e =>
      (fs, Return (Some (Errorf "checking if font is installed: %w" [] (Some e))))
  | Ok true =>
      (fs, Return (Some (Errorf "font %q is already installed" [A_str name] None)))
  | Ok false =>
      if isURL name then
        match getFontNameFromURL w name with
        | None => (fs, Panic "invalid memory address or nil pointer dereference")
        | Some fname =>
            let font := {| Name := fname; Source := str "url"; URL := name; Meta := ∅ |} in
            match http_Get w name with
            | Err e => (fs, Return (Some (Errorf "downloading font: %w" [] (Some e))))
            | Ok resp =>
                if negb (StatusCode resp =? 200)
                then (fs, Return (Some (Errorf "unexpected status code: %d"
                                          [A_int (StatusCode resp)] None)))
                else
                  match FontInstaller_Install w (installer m) font (Body resp) fs with
                  | (fs', Some e) =>
                      (fs', Return (Some (Errorf "installing font: %w" [] (Some e))))
                  | (fs', None) => (fs', Return (UpdateCache m))
                  end
            end
        end
      else
        let '(fontName, sourceName) := splitSource name in
        if negb (gostring_eqb sourceName []) then
          match findSource sourceName (sources m) with
          | Some source =>
              let '(fs', err) := installFromSource w m fontName source fs in
              (fs', Return err)
          | None =>
              (fs, Return (Some (Errorf "source %q not found" [A_str sourceName] None)))
          end
        else
          match trySources w m fontName (sources m) fs None with
          | (fs', true, _) => (fs', Return None)
          | (fs', false, Some lastErr) =>
              (fs', Return (Some (Errorf "font %q not found in any source: %v"
                                    [A_str name] (Some lastErr))))
          | (fs', false, None) => (fs', Return None)
          end
  end.

(** [RegisterSource]; [None] is the nil source. *)
Definition RegisterSource (m : DefaultManager) (source : option FontSource)
  : DefaultManager * option error :=
  match source with
  | None => (m, Some (Errorf "cannot register nil source" [] None))
  | Some src =>
      if existsb (fun existing => gostring_eqb (src_Name existing) (src_Name src))
           (sources m)
      then (m, Some (Errorf "source %q is already registered" [A_str (src_Name src)] None))
      else ({| sources := sources m ++ [src];
               installer := installer m;
               platform := platform m |}, None)
  end.

(** The loop of [InstallFromConfig] over the lines the scanner delivers. *)
Fixpoint installLines (w : World) (m : DefaultManager) (lines : list gostring)
    (fs : node) (errors : list error) : node * (string + list error) :=
  match lines with
  | [] => (fs, inr errors)
  | line :: rest =>
      match ParseFontSpec w line with
      | Err e => installLines w m rest fs (errors ++ [e])
      | Ok None => installLines w m rest fs errors
      | Ok (Some font) =>
          match Install w m (Name font) fs with
          | (fs', Panic msg) => (fs', inl msg)
          | (fs', Return None) => installLines w m rest fs' errors
          | (fs', Return (Some e)) =>
              installLines w m rest fs'
                (errors ++ [Errorf "failed to install %s: %w" [A_str (Name font)] (Some e)])
          end
      end
  end.

(** [InstallFromConfig]; the reader is the lines the scanner yields and the
    error it ends with. *)
Definition InstallFromConfig (w : World) (m : DefaultManager)
    (lines : list gostring) (scanErr : option error) (fs : node) : node * outcome :=
  match installLines w m lines fs [] with
  | (fs', inl msg) => (fs', Panic msg)
  | (fs', inr errors) =>
      let errors :=
        match scanErr with
        | Some e => errors ++ [Errorf "error reading config: %w" [] (Some e)]
        | None => errors
        end in
      if (0 <? length errors)%nat
      then (fs', Return (Some (E_many "encountered errors during installation: %v" errors)))
      else (fs', Return None)
  end.

(** ** The manager: uninstalling *)

(** [Uninstall]; a failing cache update is only logged. *)
Definition Uninstall (w : World) (m : DefaultManager) (name : gostring) (fs : node)
  : node * option error :=
  match List w m fs with
  | Err e => (fs, Some (Errorf "checking font installation: %w" [] (Some e)))
  | Ok fonts =>
      match find (sameFont name) fonts with
      | None => (fs, Some (Errorf "font %q is not installed" [A_str name] None))
      | Some targetFont =>
          match Meta targetFont !! str "directory" with
          | None => (fs, Some (Errorf "font directory information missing" [] None))
          | Some fontDir =>
              match GetFontPaths (platform m) with
              | Err e => (fs, Some (Errorf "getting font paths: %w" [] (Some e)))
              | Ok paths =>
                  if negb (strings_HasPrefix fontDir (pathString (UserDir paths)))
                  then (fs, Some (Errorf "cannot uninstall system font %q" [A_str name] None))
                  else (os_RemoveAll (parsePath fontDir) fs, None)
              end
          end
      end
  end.

(** ** The text of an error

    [Error quote e] is [e.Error()]; [quote] stands for [strconv.Quote], the
    rendering of the [%q] verb. *)

Definition decimal (z : Z) : gostring :=
  str (DecimalString.NilZero.string_of_int (Z.to_int z)).

Definition renderArg (quote : gostring -> gostring) (verb : ascii) (a : arg) : gostring :=
  match a with
  | A_str s => if Ascii.eqb verb "q" then quote s else s
  | A_int z => decimal z
  end.

Fixpoint renderf (quote : gostring -> gostring) (format : string) (args : list arg)
    (cause : gostring) : gostring :=
  match format with
  | EmptyString => []
  | String c rest =>
      if Ascii.eqb c "%" then
        match rest with
        | EmptyString => str "%!(NOVERB)"
        | String verb rest' =>
            if Ascii.eqb verb "w" || Ascii.eqb verb "v"
            then cause ++ renderf quote rest' args cause
            else match args with
                 | a :: args' =>
                     renderArg quote verb a ++ renderf quote rest' args' cause
                 | [] => str "%!(MISSING)" ++ renderf quote rest' [] cause
                 end
        end
      else rune_of_ascii c :: renderf quote rest args cause
  end.

Fixpoint joinWith (sep : gostring) (l : list gostring) : gostring :=
  match l with
  | [] => []
  | [s] => s
  | s :: l' => s ++ sep ++ joinWith sep l'
  end.

Fixpoint Error (quote : gostring -> gostring) (e : error) : gostring :=
  match e with
  | E_ext msg => msg
  | E_sys op p errno => str op ++ str " " ++ p ++ str ": " ++ str errno
  | Errorf format args cause =>
      renderf quote format args
        match cause with
        | Some c => Error quote c
        | None => str "%!w(<nil>)"
        end
  | E_many format errs =>
      renderf quote format []
        (str "[" ++ joinWith (str " ") (map (Error quote) errs) ++ str "]")
  end.

Definition contains (s sub : gostring) : Prop :=
  exists pre post, s = pre ++ sub ++ post.

(** ** A test bench

    The fixtures of [manager_test.go]: a platform with the two directories
    under one temporary directory, a source serving a table of archives, and
    a world in which archives, URLs and JSON are read by small stand-ins. *)

Module Bench.

Definition quote (s : gostring) : gostring := [34] ++ s ++ [34].

(** The compact objects [json.Marshal] emits, with backslash escapes. *)
Definition jsonQuote (s : gostring) : gostring :=
  [34] ++ flat_map (fun c => if (c =? 34) || (c =? 92) then [92; c] else [c]) s ++ [34].

Definition mock_json_Marshal (m : gmap (list Z) (list Z)) : gostring :=
  [123] ++ joinWith [44]
             (map (fun kv => jsonQuote (fst kv) ++ [58] ++ jsonQuote (snd kv))
                (map_to_list m))
  ++ [125].

Fixpoint jsonString (s acc : gostring) : option (gostring * gostring) :=
  match s with
  | [] => None
  | c :: s' =>
      if c =? 34 then Some (rev acc, s')
      else if c =? 92 then
        match s' with
        | e :: s'' => jsonString s'' (e :: acc)
        | [] => None
        end
      else jsonString s' (c :: acc)
  end.

Fixpoint jsonMembers (fuel : nat) (s : gostring) (m : gmap (list Z) (list Z))
  : option (gmap (list Z) (list Z)) :=
  match fuel, s with
  | Datatypes.S fuel', 34 :: s1 =>
      match jsonString s1 [] with
      | Some (k, 58 :: 34 :: s2) =>
          match jsonString s2 [] with
          | Some (v, [125]) => Some (<[k := v]> m)
          | Some (v, 44 :: s3) => jsonMembers fuel' s3 (<[k := v]> m)
          | _ => None
          end
      | _ => None
      end
  | _, _ => None
  end.

Definition mock_json_Unmarshal (s : gostring) : option (gmap (list Z) (list Z)) :=
  match s with
  | [123; 125] => Some ∅
  | 123 :: s' => jsonMembers (length s') s' ∅
  | _ => None
  end.

Definition entry (name data : string) : zip_File :=
  {| zf_Name := str name; zf_IsDir := false; zf_Data := str data |}.

(** [createTestZip]: every font file is followed by a LICENSE entry. *)
Definition archives : list (gostring * list zip_File) :=
  [ (str "zip:TestFont1",
      [entry "TestFont1.ttf" "fake ttf content"; entry "LICENSE" "Test License"]);
    (str "zip:TestFont2",
      [entry "TestFont2.ttf" "fake ttf content"; entry "LICENSE" "Test License"]);
    (str "zip:TestMulti",
      [entry "TestMulti.ttf" "ttf version"; entry "LICENSE" "Test License";
       entry "TestMulti.otf" "otf version"; entry "LICENSE" "Test License"]);
    (str "zip:LicenseOnly", [entry "LICENSE" "Test License"]) ].

Fixpoint assoc {A} (k : gostring) (l : list (gostring * A)) : option A :=
  match l with
  | [] => None
  | (k', v) :: l' => if gostring_eqb k k' then Some v else assoc k l'
  end.

Definition mock_zip_NewReader (data : gostring) : result (list zip_File) :=
  match assoc data archives with
  | Some files => Ok files
  | None => Err (E_ext (str "zip: not a valid zip file"))
  end.

(** The path of [scheme://host/path]. *)
Definition mock_url_Parse (s : gostring) : result gostring :=
  let rest :=
    if strings_HasPrefix s (str "https://") then skipn 8 s
    else if strings_HasPrefix s (str "http://") then skipn 7 s
    else s in
  if existsb (fun c => c =? 32) s then Err (E_ext (str "invalid character in URL"))
  else Ok (trimLeftFunc (fun c => negb (isSlash c)) rest).

Definition mock_http_Get (u : gostring) : result http_Response :=
  if gostring_eqb u (str "https://example.com/fonts/TestFont1.zip")
  then Ok {| StatusCode := 200; Body := str "zip:TestFont1" |}
  else Ok {| StatusCode := 404; Body := [] |}.

Definition world : World :=
  {| time_Now := str "2024-05-01T10:00:00Z";
     json_Marshal := mock_json_Marshal;
     json_Unmarshal := mock_json_Unmarshal;
     zip_NewReader := mock_zip_NewReader;
     url_Parse := mock_url_Parse;
     http_Get := mock_http_Get |}.

Definition sourceFonts : list (gostring * gostring) :=
  [ (str "TestFont1", str "zip:TestFont1");
    (str "TestFont2", str "zip:TestFont2");
    (str "TestMulti", str "zip:TestMulti") ].

Definition failures : list (gostring * error) :=
  [ (str "FailingFont", E_ext (str "simulated failure")) ].

(** [mockSource] *)
Definition mockSource : FontSource :=
  {| src_Name := str "testsource";
     Search := fun name =>
       match assoc name failures with
       | Some err => Err err
       | None =>
           match assoc name sourceFonts with
           | Some _ =>
               Ok [ {| Name := name; Source := str "testsource"; URL := []; Meta := ∅ |} ]
           | None => Ok []
           end
       end;
     Download := fun font =>
       match assoc (Name font) failures with
       | Some err => Err err
       | None =>
           match assoc (Name font) sourceFonts with
           | Some content => Ok content
           | None => Err (E_ext (str "font not found"))
           end
       end |}.

(** [mockPlatform] with [fontDir = /tmp/font-test] *)
Definition tempDir : list (list Z) := [str "tmp"; str "font-test"].

Definition mockPlatform : platform_Manager :=
  {| GetFontPaths := Ok {| SystemDir := tempDir ++ [str "system"];
                           UserDir := tempDir ++ [str "user"] |};
     UpdateFontCache := None |}.

(** The file system of [BeforeEach]: both directories exist and are
    empty. *)
Definition fs0 : node :=
  Dir [ (str "tmp",
          Dir [ (str "font-test",
                  Dir [ (str "system", Dir []); (str "user", Dir []) ]) ]) ].

Definition managerWith (srcs : list FontSource) : DefaultManager :=
  {| sources := srcs;
     installer := NewFontInstaller (tempDir ++ [str "user"]);
     platform := mockPlatform |}.

Definition manager : DefaultManager := managerWith [mockSource].

Definition file (name data : string) : list Z * node := (str name, File (str data)).
Definition dir (name : string) (es : list (list Z * node)) : list Z * node :=
  (str name, Dir es).

(** TestFont1 present under the user directory and under the system
    directory. *)
Definition fsBoth : node :=
  Dir [ dir "tmp" [ dir "font-test"
    [ dir "system"
        [ dir "TestFont1"
            [ file ".source" "vendor"; file "TestFont1.ttf" "system copy" ] ];
      dir "user"
        [ dir "TestFont1"
            [ file ".source" "testsource"; file "TestFont1.ttf" "user copy" ] ] ] ] ].

(** A font file lying directly in the user directory, next to an
    installed font. *)
Definition fsLoose : node :=
  Dir [ dir "tmp" [ dir "font-test"
    [ dir "system" [];
      dir "user"
        [ file "Loose.ttf" "loose";
          dir "TestFont1"
            [ file ".source" "testsource"; file "TestFont1.ttf" "user copy" ] ] ] ] ].

(** A platform whose system directory is a sibling of the user directory
    with a longer name, and a font installed system-wide only. *)
Definition siblingPlatform : platform_Manager :=
  {| GetFontPaths := Ok {| SystemDir := [str "srv"; str "fonts-system"];
                           UserDir := [str "srv"; str "fonts"] |};
     UpdateFontCache := None |}.

Definition siblingManager : DefaultManager :=
  {| sources := [mockSource];
     installer := NewFontInstaller [str "srv"; str "fonts"];
     platform := siblingPlatform |}.

Definition fsSibling : node :=
  Dir [ dir "srv"
    [ dir "fonts" [];
      dir "fonts-system" [ dir "Foo" [ file "Foo.ttf" "system font" ] ] ] ].

Definition fontURL : list Z := str "https://example.com/fonts/TestFont1.zip".

Definition userFont (name : string) : list (list Z) :=
  tempDir ++ [str "user"; str name].
End Bench.

(** ** Notions used to state the properties *)

(** Every source of the list, tried in order from [fs], fails; the last
    two arguments are the file system then reached and the error of the
    last source. *)
Inductive allFail (w : World) (m : DefaultManager) (fontName : gostring)
  : list FontSource -> node -> node -> option error -> Prop :=
| allFail_nil fs : allFail w m fontName [] fs fs None
| allFail_snoc srcs source fs fs1 fs2 e0 e :
    allFail w m fontName srcs fs fs1 e0 ->
    installFromSource w m fontName source fs1 = (fs2, Some e) ->
    allFail w m fontName (srcs ++ [source]) fs fs2 (Some e).

(** A line that InstallFromConfig skips: blank, or its first
    non-whitespace character is [#]. *)
Definition spec_skipped (line : gostring) : bool :=
  match trimLeftFunc unicode_IsSpace line with
  | [] => true
  | c :: _ => c =? ch "#"
  end.

(** What one line of the spec file does on its own: the file system it
    leaves and the error (none or one) it contributes. *)
Definition spec_line (w : World) (m : DefaultManager) (line : gostring) (fs : node)
  : node * list error :=
  if spec_skipped line then (fs, [])
  else
    match ParseFontSpec w line with
    | Err e => (fs, [e])
    | Ok None => (fs, [])
    | Ok (Some font) =>
        match Install w m (Name font) fs with
        | (fs', Return (Some e)) =>
            (fs', [Errorf "failed to install %s: %w" [A_str (Name font)] (Some e)])
        | (fs', Return None) => (fs', [])
        | (fs', Panic _) => (fs', [])
        end
    end.

(** All lines, one after the other, none left out. *)
Fixpoint spec_lines (w : World) (m : DefaultManager) (lines : list gostring) (fs : node)
  : node * list error :=
  match lines with
  | [] => (fs, [])
  | line :: rest =>
      let '(fs1, errs1) := spec_line w m line fs in
      let '(fs2, errs2) := spec_lines w m rest fs1 in
      (fs2, errs1 ++ errs2)
  end.

Definition nameIs (n : gostring) (font : Font) : bool := gostring_eqb (Name font) n.

(** [p] is [dir] or lies below it. *)
Definition descendant (dir p : path) : Prop := exists rel, p = dir ++ rel.

(** A name a directory entry can have. *)
Definition validName (c : gostring) : bool :=
  negb (gostring_eqb c []) && negb (gostring_eqb c (str "."))
  && negb (gostring_eqb c (str "..")) && negb (existsb isSlash c).

Fixpoint sortedNames (l : list gostring) : bool :=
  match l with
  | a :: l' =>
      match l' with
      | b :: _ => lex_ltb a b && sortedNames l'
      | [] => true
      end
  | [] => true
  end.

(** The states of the tree that are file systems: in every directory the
    names are entry names and strictly increasing. *)
Fixpoint wf_node (n : node) : bool :=
  match n with
  | File _ => true
  | Dir es =>
      forallb validName (map fst es) && sortedNames (map fst es)
      && (fix all (es : list (gostring * node)) : bool :=
            match es with
            | [] => true
            | (_, m) :: es' => wf_node m && all es'
            end) es
  end.

(** The tree with the node at [p] replaced. *)
Fixpoint fs_set (p : path) (new n : node) : node :=
  match p with
  | [] => new
  | c :: p' =>
      match n with
      | Dir es =>
          match entry_lookup c es with
          | Some m => Dir (entry_insert c (fs_set p' new m) es)
          | None => n
          end
      | File _ => n
      end
  end.

(** What [filepath.Walk] visits below [p], in order. *)
Fixpoint visits (p : path) (name : gostring) (n : node) : list (path * FileInfo) :=
  match n with
  | File _ => [(p, {| fi_Name := name; fi_IsDir := false |})]
  | Dir es =>
      (p, {| fi_Name := name; fi_IsDir := true |})
      :: (fix each (es : list (gostring * node)) : list (path * FileInfo) :=
            match es with
            | [] => []
            | (c, m) :: es' => visits (p ++ [c]) c m ++ each es'
            end) es
  end.





(** The visits below the entries of a directory at [p]. *)
Definition visitsOf (p : path) (es : list (gostring * node)) : list (path * FileInfo) :=
  flat_map (fun e => visits (p ++ [fst e]) (fst e) (snd e)) es.

(** A visit the callbacks of the package act on: a file with a font
    extension. *)
Definition fontVisit (v : path * FileInfo) : bool :=
  negb (fi_IsDir (snd v)) && isFontFile (fi_Name (snd v)).

(** One step of the walk of [listFontsInDir]. *)
Definition listStep (w : World) (dir : path) (fs : node) (fonts : list Font)
    (v : path * FileInfo) : list Font :=
  fst (listFn w dir fs (fst v) (snd v) None fonts).

(** * Properties *)

(** ** Strings *)

Lemma trimLeftFunc_snoc f l c :
  trimLeftFunc f (l ++ [c]) =
  match trimLeftFunc f l with
  | [] => if f c then [] else [c]
  | t => t ++ [c]
  end.
Proof.
  induction l as [|x l IH]; simpl.
  - reflexivity.
  - destruct (f x); [exact IH | reflexivity].
Qed.

Lemma trimRightFunc_cons f c s :
  trimRightFunc f (c :: s) =
  match trimRightFunc f s with
  | [] => if f c then [] else [c]
  | t => c :: t
  end.
Proof.
  unfold trimRightFunc. simpl. rewrite trimLeftFunc_snoc.
  destruct (trimLeftFunc f (rev s)) as [|x t] eqn:E; simpl.
  - destruct (f c); reflexivity.
  - rewrite rev_app_distr. simpl.
    destruct (rev t ++ [x]) eqn:E2; [|reflexivity].
    destruct (rev t); discriminate.
Qed.

(** Trimming the two ends commutes. *)
Lemma trim_comm f s :
  trimLeftFunc f (trimRightFunc f s) = trimRightFunc f (trimLeftFunc f s).
Proof.
  induction s as [|c s IH]; [reflexivity|].
  rewrite trimRightFunc_cons. simpl.
  destruct (f c) eqn:Hc.
  - rewrite <- IH. destruct (trimRightFunc f s) as [|x t]; simpl.
    + reflexivity.
    + rewrite Hc. reflexivity.
  - rewrite trimRightFunc_cons.
    destruct (trimRightFunc f s) as [|x t]; simpl; rewrite Hc; reflexivity.
Qed.

Lemma trimLeftFunc_ext f g s :
  (forall c, f c = g c) -> trimLeftFunc f s = trimLeftFunc g s.
Proof.
  intros H. induction s as [|c s IH]; simpl; [reflexivity|].
  rewrite <- H, IH. reflexivity.
Qed.

(** ** sanitizeFontName *)

Lemma sanitizeRune_ascii :
  forallb (fun r => sanitizeRune r =? spec_replace r) (seqZ 0 128) = true.
Proof. vm_compute. reflexivity. Qed.

Lemma spec_allowed_ascii : Forall (fun r => 0 <= r < 128) spec_allowed.
Proof. unfold spec_allowed. simpl. repeat constructor; vm_compute; congruence. Qed.

Lemma sanitizeRune_spec r : sanitizeRune r = spec_replace r.
Proof.
  destruct (decide (0 <= r < 128)) as [Hr|Hr].
  - pose proof sanitizeRune_ascii as H.
    rewrite forallb_forall in H.
    apply Z.eqb_eq, H, list_elem_of_In, elem_of_seqZ. lia.
  - unfold spec_replace. rewrite bool_decide_eq_false_2.
    + unfold sanitizeRune.
      destruct (_ || _) eqn:E; [|reflexivity].
      exfalso. apply Hr. lia.
    + intros Hin. apply Hr.
      pose proof spec_allowed_ascii as H. rewrite Forall_forall in H.
      apply H. exact Hin.
Qed.

Lemma sanitizeRune_nonneg r : (sanitizeRune r <? 0) = false.
Proof.
  unfold sanitizeRune, dash. destruct (_ || _) eqn:E; lia.
Qed.

Lemma strings_Map_sanitize s : strings_Map sanitizeRune s = map spec_replace s.
Proof.
  unfold strings_Map. induction s as [|c s IH]; simpl; [reflexivity|].
  rewrite sanitizeRune_nonneg, IH, sanitizeRune_spec. reflexivity.
Qed.

Lemma spec_dropDashes_trim s :
  spec_dropDashes s = trimLeftFunc (inCutset (str "-")) s.
Proof.
  induction s as [|c s IH]; simpl; [reflexivity|].
  rewrite IH. unfold inCutset at 2. simpl. unfold dash.
  destruct (bool_decide_reflect (c = 45)) as [->|Hc]; simpl; [reflexivity|].
  replace (c =? rune_of_ascii "-") with false; [reflexivity|].
  symmetry. apply Z.eqb_neq. exact Hc.
Qed.

(** C9. For every string, the directory name [sanitizeFontName] computes is
    the string in which every character outside [[A-Za-z0-9_-]] is replaced
    by '-' and from which all leading and trailing '-' are then trimmed. *)
Theorem sanitizeFontName_spec (s : gostring) :
  sanitizeFontName s = spec_sanitize s.
Proof.
  unfold sanitizeFontName, spec_sanitize, strings_Trim.
  rewrite strings_Map_sanitize, trim_comm.
  unfold trimRightFunc. rewrite !spec_dropDashes_trim. reflexivity.
Qed.

(** ** Install: the fan-out over the registered sources *)

Lemma Install_plain w m name fs :
  isURL name = false ->
  snd (splitSource name) = [] ->
  IsInstalled w m name fs = Ok false ->
  Install w m name fs =
  match trySources w m (fst (splitSource name)) (sources m) fs None with
  | (fs', true, _) => (fs', Return None)
  | (fs', false, Some lastErr) =>
      (fs', Return (Some (Errorf "font %q not found in any source: %v"
                            [A_str name] (Some lastErr))))
  | (fs', false, None) => (fs', Return None)
  end.
Proof.
  intros Hurl Hsrc Hinst. unfold Install. rewrite Hinst, Hurl.
  destruct (splitSource name) as [fontName sourceName]. simpl in *.
  subst sourceName. reflexivity.
Qed.

Lemma trySources_app w m fontName l1 l2 fs lastErr :
  trySources w m fontName (l1 ++ l2) fs lastErr =
  match trySources w m fontName l1 fs lastErr with
  | (fs1, true, e) => (fs1, true, e)
  | (fs1, false, e) => trySources w m fontName l2 fs1 e
  end.
Proof.
  revert fs lastErr. induction l1 as [|s l1 IH]; intros fs lastErr; simpl.
  - reflexivity.
  - destruct (installFromSource w m fontName s fs) as [fs' [e|]].
    + apply IH.
    + reflexivity.
Qed.

Lemma allFail_trySources w m fontName l fs fs' e :
  allFail w m fontName l fs fs' e ->
  forall lastErr,
    trySources w m fontName l fs lastErr =
    (fs', false, match e with Some _ => e | None => lastErr end).
Proof.
  induction 1 as [fs|srcs source fs fs1 fs2 e0 e Hall IH Hsrc]; intros lastErr.
  - reflexivity.
  - rewrite trySources_app, IH. simpl. rewrite Hsrc. reflexivity.
Qed.

Lemma allFail_cons w m fontName source l fs fs1 fs2 e e' :
  installFromSource w m fontName source fs = (fs1, Some e) ->
  allFail w m fontName l fs1 fs2 e' ->
  allFail w m fontName (source :: l) fs fs2
    (match e' with Some _ => e' | None => Some e end).
Proof.
  intros Hsrc Hall. induction Hall as [fs1|srcs s fs1 fs2 fs3 e0 e1 Hall IH Hs].
  - apply (allFail_snoc w m fontName [] source fs fs fs1 None e).
    + constructor.
    + exact Hsrc.
  - change (source :: srcs ++ [s]) with ((source :: srcs) ++ [s]).
    eapply allFail_snoc; [apply IH; exact Hsrc | exact Hs].
Qed.

(** Either some source is the first to succeed, or all of them fail. *)
Lemma fanout_cases w m fontName l fs :
  (exists pre source post fs1 e0 fs2,
      l = pre ++ source :: post /\
      allFail w m fontName pre fs fs1 e0 /\
      installFromSource w m fontName source fs1 = (fs2, None))
  \/ (exists fs' e, allFail w m fontName l fs fs' e).
Proof.
  revert fs. induction l as [|s l IH]; intros fs.
  - right. exists fs, None. constructor.
  - destruct (installFromSource w m fontName s fs) as [fs1 [e|]] eqn:Hs.
    + destruct (IH fs1) as [(pre & src & post & fs2 & e0 & fs3 & -> & Hall & Hok)
                           |(fs' & e' & Hall)].
      * left. eexists (s :: pre), src, post, fs2, _, fs3.
        split; [reflexivity|]. split; [|exact Hok].
        eapply allFail_cons; eassumption.
      * right. eexists _, _. eapply allFail_cons; eassumption.
    + left. exists [], s, l, fs, None, fs1.
      split; [reflexivity|]. split; [constructor | exact Hs].
Qed.

Lemma allFail_last w m fontName l fs fs' e :
  allFail w m fontName l fs fs' e -> l <> [] -> exists lastErr, e = Some lastErr.
Proof.
  destruct 1; intros Hne.
  - congruence.
  - eauto.
Qed.

(** C10. A name without URL prefix and without a source after [@], not yet
    installed, is "installed" with a nil error and an untouched file system
    when no source is registered. *)
Theorem Install_without_sources (w : World) (m : DefaultManager)
    (name : gostring) (fs : node) :
  isURL name = false ->
  snd (splitSource name) = [] ->
  IsInstalled w m name fs = Ok false ->
  sources m = [] ->
  Install w m name fs = (fs, Return None).
Proof.
  intros Hurl Hsrc Hinst Hnone.
  rewrite Install_plain by assumption. rewrite Hnone. reflexivity.
Qed.

Lemma Install_without_sources_witness :
  Install Bench.world (Bench.managerWith []) (str "TestFont1") Bench.fs0
  = (Bench.fs0, Return None).
Proof.
  apply Install_without_sources; vm_compute; reflexivity.
Defined.

(** C6, as amended. For a name without URL prefix and without a source
    after [@] that is not yet installed, [Install] tries the sources in
    registration order: it returns nil at the first source whose
    [installFromSource] succeeds (every earlier one having failed, none of
    the later ones being consulted); when the list is not empty and every
    source fails it returns the "not found in any source" error that
    carries the error of the last source; with no source registered it
    returns nil. *)
Theorem Install_fanout (w : World) (m : DefaultManager) (name : gostring) (fs : node) :
  isURL name = false ->
  snd (splitSource name) = [] ->
  IsInstalled w m name fs = Ok false ->
  (exists pre source post fs1 e0 fs2,
      sources m = pre ++ source :: post /\
      allFail w m (fst (splitSource name)) pre fs fs1 e0 /\
      installFromSource w m (fst (splitSource name)) source fs1 = (fs2, None) /\
      Install w m name fs = (fs2, Return None))
  \/ (exists fs' lastErr,
      sources m <> [] /\
      allFail w m (fst (splitSource name)) (sources m) fs fs' (Some lastErr) /\
      Install w m name fs =
        (fs', Return (Some (Errorf "font %q not found in any source: %v"
                              [A_str name] (Some lastErr)))) /\
      forall quote,
        Error quote (Errorf "font %q not found in any source: %v"
                       [A_str name] (Some lastErr))
        = str "font " ++ quote name ++ str " not found in any source: "
          ++ Error quote lastErr)
  \/ (sources m = [] /\ Install w m name fs = (fs, Return None)).
Proof.
  intros Hurl Hsrc Hinst.
  rewrite Install_plain by assumption.
  destruct (fanout_cases w m (fst (splitSource name)) (sources m) fs)
    as [(pre & src & post & fs1 & e0 & fs2 & Heq & Hall & Hok)|(fs' & e & Hall)].
  - left. exists pre, src, post, fs1, e0, fs2.
    repeat split; try assumption.
    rewrite Heq, trySources_app, (allFail_trySources _ _ _ _ _ _ _ Hall).
    simpl. rewrite Hok. reflexivity.
  - destruct (sources m) as [|s l] eqn:Hl.
    + right. right. split; reflexivity.
    + right. left.
      destruct (allFail_last _ _ _ _ _ _ _ Hall) as [lastErr ->]; [discriminate|].
      exists fs', lastErr. split; [discriminate|]. split; [exact Hall|].
      rewrite (allFail_trySources _ _ _ _ _ _ _ Hall). split; [reflexivity|].
      intros quote. cbn. rewrite app_nil_r. reflexivity.
Qed.

Lemma Install_fanout_witness :
  let w := Bench.world in
  let m := Bench.manager in
  let name := str "FailingFont" in
  exists fs' lastErr,
    Install w m name Bench.fs0 =
      (fs', Return (Some (Errorf "font %q not found in any source: %v"
                            [A_str name] (Some lastErr)))).
Proof.
  intros w m name.
  destruct (Install_fanout w m name Bench.fs0)
    as [(pre & src & post & fs1 & e0 & fs2 & _ & _ & _ & H)
       |[(fs' & lastErr & _ & _ & H & _)|[H _]]];
    try (vm_compute; reflexivity).
  - exfalso. vm_compute in H. discriminate H.
  - exists fs', lastErr. exact H.
  - exfalso. vm_compute in H. discriminate H.
Defined.

(** The claim C6 as stated fails when no source is registered: every
    source (there is none) fails, and [Install] returns nil, not the "not
    found in any source" error. *)
Lemma Install_fanout_counterexample :
  let w := Bench.world in
  let m := Bench.managerWith [] in
  let name := str "TestFont1" in
  ~ (isURL name = false ->
     snd (splitSource name) = [] ->
     IsInstalled w m name Bench.fs0 = Ok false ->
     (exists fs' e, allFail w m (fst (splitSource name)) (sources m) Bench.fs0 fs' e) ->
     exists fs' lastErr,
       Install w m name Bench.fs0 =
         (fs', Return (Some (Errorf "font %q not found in any source: %v"
                               [A_str name] (Some lastErr))))).
Proof.
  intros w m name H.
  destruct H as (fs' & lastErr & H); try (vm_compute; reflexivity).
  - exists Bench.fs0, None. constructor.
  - vm_compute in H. discriminate H.
Qed.

(** ** More on strings *)

Lemma HasPrefix_app s p :
  strings_HasPrefix s p = true <-> exists rest, s = p ++ rest.
Proof.
  revert s. induction p as [|c p IH]; intros s; simpl.
  - split; [intros _; exists s; reflexivity | reflexivity].
  - destruct s as [|x s].
    + split; [discriminate | intros [rest H]; discriminate H].
    + rewrite andb_true_iff, IH, Z.eqb_eq. split.
      * intros [-> [rest ->]]. exists rest. reflexivity.
      * intros [rest H]. injection H as -> ->. split; [reflexivity | eauto].
Qed.

Lemma HasPrefix_mono s t p :
  strings_HasPrefix s p = true -> strings_HasPrefix (s ++ t) p = true.
Proof.
  rewrite !HasPrefix_app. intros [rest ->]. exists (rest ++ t).
  rewrite app_assoc. reflexivity.
Qed.

Lemma trimLeftFunc_suffix f s : exists pre, s = pre ++ trimLeftFunc f s.
Proof.
  induction s as [|c s [pre IH]]; simpl.
  - exists []. reflexivity.
  - destruct (f c).
    + exists (c :: pre). simpl. rewrite <- IH. reflexivity.
    + exists []. reflexivity.
Qed.

Lemma trimRightFunc_prefix f s : exists suf, s = trimRightFunc f s ++ suf.
Proof.
  unfold trimRightFunc.
  destruct (trimLeftFunc_suffix f (rev s)) as [pre H].
  exists (rev pre). rewrite <- rev_app_distr, <- H, rev_involutive. reflexivity.
Qed.

Lemma trimLeftFunc_head f s c t : trimLeftFunc f s = c :: t -> f c = false.
Proof.
  induction s as [|x s IH]; simpl; [discriminate|].
  destruct (f x) eqn:Hx; [exact IH|].
  intros H. injection H as -> _. exact Hx.
Qed.

Lemma trimRightFunc_keeps_head f c s :
  f c = false -> exists t, trimRightFunc f (c :: s) = c :: t.
Proof.
  intros Hc. rewrite trimRightFunc_cons.
  destruct (trimRightFunc f s) as [|x t].
  - rewrite Hc. eauto.
  - eauto.
Qed.

Lemma TrimSpace_head s c t :
  strings_TrimSpace s = c :: t -> unicode_IsSpace c = false.
Proof.
  unfold strings_TrimSpace.
  destruct (trimLeftFunc unicode_IsSpace s) as [|x l] eqn:E.
  - discriminate.
  - pose proof (trimLeftFunc_head _ _ _ _ E) as Hx.
    destruct (trimRightFunc_keeps_head unicode_IsSpace x l Hx) as [t' ->].
    intros H. injection H as -> _. exact Hx.
Qed.

Lemma Split_hd_prefix s sep : exists rest, s = hd [] (strings_Split s sep) ++ rest.
Proof.
  induction s as [|c s [rest IH]]; simpl.
  - exists []. reflexivity.
  - destruct (c =? sep).
    + exists (c :: s). reflexivity.
    + destruct (strings_Split s sep) as [|p ps]; simpl in *.
      * exists s. reflexivity.
      * exists rest. rewrite <- IH. reflexivity.
Qed.

Lemma Split_no_sep s sep :
  Forall (fun p => ~ In sep p) (strings_Split s sep).
Proof.
  induction s as [|c s IH]; simpl.
  - constructor; [intros [] | constructor].
  - destruct (c =? sep) eqn:Hc.
    + constructor; [intros [] | exact IH].
    + apply Z.eqb_neq in Hc.
      destruct (strings_Split s sep) as [|p ps].
      * constructor; [|constructor]. intros [H|[]]. congruence.
      * inversion IH as [|? ? Hp Hps]; subst.
        constructor; [|exact Hps]. intros [H|H]; [congruence | exact (Hp H)].
Qed.

Lemma Split_nonempty s sep : strings_Split s sep <> [].
Proof.
  destruct s as [|c s]; simpl; [discriminate|].
  destruct (c =? sep); [discriminate|].
  destruct (strings_Split s sep); discriminate.
Qed.

Lemma TrimSuffix_incl s suffix c : In c (strings_TrimSuffix s suffix) -> In c s.
Proof.
  unfold strings_TrimSuffix. destruct (strings_HasSuffix s suffix); [|tauto].
  intros H. rewrite <- (firstn_skipn (length s - length suffix) s).
  apply in_or_app. left. exact H.
Qed.

Lemma isURL_slash s : isURL s = true -> In slash s.
Proof.
  unfold isURL. rewrite orb_true_iff, !HasPrefix_app.
  intros [[rest ->]|[rest ->]]; apply in_or_app; left; vm_compute; tauto.
Qed.

Lemma nameFromPath_not_URL upath : isURL (nameFromPath upath) = false.
Proof.
  destruct (isURL (nameFromPath upath)) eqn:E; [|reflexivity].
  exfalso. apply isURL_slash in E. unfold nameFromPath in E.
  do 3 apply TrimSuffix_incl in E.
  pose proof (Split_no_sep upath slash) as H. rewrite List.Forall_forall in H.
  apply (H (List.last (strings_Split upath slash) [])); [|exact E].
  destruct (exists_last (Split_nonempty upath slash)) as (l & x & ->).
  rewrite last_last. apply in_or_app. right. left. reflexivity.
Qed.

(** A trimmed line that does not start like a URL has no part before its
    first [@] that does. *)
Lemma name_part_not_URL line :
  isURL (strings_TrimSpace line) = false ->
  isURL (strings_TrimSpace (hd [] (strings_Split (strings_TrimSpace line) at_sign))) = false.
Proof.
  intros Hline.
  destruct (isURL (strings_TrimSpace (hd [] _))) eqn:E; [|reflexivity].
  exfalso. rewrite <- not_true_iff_false in Hline. apply Hline. clear Hline.
  destruct (Split_hd_prefix (strings_TrimSpace line) at_sign) as [rest Hp].
  set (p0 := hd [] (strings_Split (strings_TrimSpace line) at_sign)) in *.
  assert (Hleft : trimLeftFunc unicode_IsSpace p0 = p0).
  { destruct p0 as [|c p0']; [reflexivity|]. simpl.
    rewrite (TrimSpace_head line c (p0' ++ rest)); [reflexivity | exact Hp]. }
  unfold strings_TrimSpace at 1 in E. rewrite Hleft in E.
  destruct (trimRightFunc_prefix unicode_IsSpace p0) as [suf Hsuf].
  rewrite Hp, Hsuf, <- app_assoc.
  unfold isURL in *. apply orb_true_iff in E. apply orb_true_iff.
  destruct E as [E|E]; [left|right]; apply HasPrefix_mono; exact E.
Qed.

(** The name [ParseFontSpec] hands on never has the URL form. *)
Lemma ParseFontSpec_name_not_URL w line font :
  ParseFontSpec w line = Ok (Some font) -> isURL (Name font) = false.
Proof.
  unfold ParseFontSpec.
  destruct (_ || _); [discriminate|].
  destruct (isURL (strings_TrimSpace line)) eqn:Hurl.
  - destruct (url_Parse w (strings_TrimSpace line)); [|discriminate].
    intros H. injection H as <-. simpl. apply nameFromPath_not_URL.
  - intros H. injection H as <-. simpl. apply name_part_not_URL. exact Hurl.
Qed.

(** Outside the direct-URL path [Install] returns. *)
Lemma Install_returns w m name fs :
  isURL name = false -> exists fs' err, Install w m name fs = (fs', Return err).
Proof.
  intros Hurl. unfold Install. rewrite Hurl.
  destruct (IsInstalled w m name fs) as [[|]|e]; eauto.
  destruct (splitSource name) as [fontName sourceName].
  destruct (negb _).
  - destruct (findSource sourceName (sources m)); eauto.
    destruct (installFromSource w m fontName f fs). eauto.
  - destruct (trySources w m fontName (sources m) fs None) as [[fs' [|]] [e|]]; eauto.
Qed.

Lemma skipped_ParseFontSpec w line :
  spec_skipped line = true -> ParseFontSpec w line = Ok None.
Proof.
  unfold spec_skipped, ParseFontSpec, strings_TrimSpace.
  destruct (trimLeftFunc unicode_IsSpace line) as [|c t] eqn:E.
  - reflexivity.
  - intros Hc. apply Z.eqb_eq in Hc. subst c.
    destruct (trimRightFunc_keeps_head unicode_IsSpace (ch "#") t) as [t' ->].
    + reflexivity.
    + reflexivity.
Qed.

(** ** InstallFromConfig *)

Lemma installLines_spec w m lines :
  forall fs errors,
    installLines w m lines fs errors =
    (fst (spec_lines w m lines fs), inr (errors ++ snd (spec_lines w m lines fs))).
Proof.
  induction lines as [|line rest IH]; intros fs errors; simpl.
  - rewrite app_nil_r. reflexivity.
  - unfold spec_line.
    destruct (spec_skipped line) eqn:Hskip.
    { rewrite (skipped_ParseFontSpec w line Hskip), IH.
      destruct (spec_lines w m rest fs). reflexivity. }
    destruct (ParseFontSpec w line) as [[font|]|e] eqn:Hparse.
    + destruct (Install_returns w m (Name font) fs
                  (ParseFontSpec_name_not_URL w line font Hparse))
        as (fs' & err & ->).
      destruct err as [e|]; rewrite IH; destruct (spec_lines w m rest fs');
        simpl; rewrite <- ?app_assoc; reflexivity.
    + rewrite IH. destruct (spec_lines w m rest fs). reflexivity.
    + rewrite IH. destruct (spec_lines w m rest fs).
      simpl. rewrite <- app_assoc. reflexivity.
Qed.

Lemma spec_lines_app w m l1 l2 fs :
  spec_lines w m (l1 ++ l2) fs =
  let '(fs1, errs1) := spec_lines w m l1 fs in
  let '(fs2, errs2) := spec_lines w m l2 fs1 in
  (fs2, errs1 ++ errs2).
Proof.
  revert fs. induction l1 as [|line l1 IH]; intros fs; simpl.
  - destruct (spec_lines w m l2 fs). reflexivity.
  - destruct (spec_line w m line fs) as [fs1 errs1]. rewrite IH.
    destruct (spec_lines w m l1 fs1) as [fs2 errs2].
    destruct (spec_lines w m l2 fs2) as [fs3 errs3].
    rewrite app_assoc. reflexivity.
Qed.

Lemma spec_lines_skip w m pre line post fs :
  spec_skipped line = true ->
  spec_lines w m (pre ++ line :: post) fs = spec_lines w m (pre ++ post) fs.
Proof.
  intros Hskip. rewrite !spec_lines_app.
  destruct (spec_lines w m pre fs) as [fs1 errs1].
  simpl. unfold spec_line. rewrite Hskip.
  destruct (spec_lines w m post fs1). reflexivity.
Qed.

Lemma InstallFromConfig_spec w m lines scanErr fs :
  InstallFromConfig w m lines scanErr fs =
  let errors :=
    match scanErr with
    | Some e => snd (spec_lines w m lines fs)
                ++ [Errorf "error reading config: %w" [] (Some e)]
    | None => snd (spec_lines w m lines fs)
    end in
  (fst (spec_lines w m lines fs),
   Return (if (0 <? length errors)%nat
           then Some (E_many "encountered errors during installation: %v" errors)
           else None)).
Proof.
  unfold InstallFromConfig. rewrite installLines_spec. simpl.
  destruct (0 <? _)%nat; reflexivity.
Qed.

(** C7. InstallFromConfig handles every line on its own ([spec_lines]):
    a parse error or an install error of a line is added to the list and
    the following lines are still handled; the call returns an error
    exactly when the list (with the error the scanner ended on) is not
    empty, and that error is the aggregate of the whole list; blank lines
    and comment lines have no effect: taking one out of the input changes
    nothing. *)
Theorem InstallFromConfig_accumulates (w : World) (m : DefaultManager)
    (lines : list gostring) (scanErr : option error) (fs : node) :
  let accumulated :=
    snd (spec_lines w m lines fs) ++
    match scanErr with
    | Some e => [Errorf "error reading config: %w" [] (Some e)]
    | None => []
    end in
  exists err,
    InstallFromConfig w m lines scanErr fs
      = (fst (spec_lines w m lines fs), Return err) /\
    (err = None <-> accumulated = []) /\
    (accumulated <> [] ->
     err = Some (E_many "encountered errors during installation: %v" accumulated)) /\
    (forall pre line post,
       lines = pre ++ line :: post -> spec_skipped line = true ->
       InstallFromConfig w m (pre ++ post) scanErr fs
       = InstallFromConfig w m lines scanErr fs).
Proof.
  intros accumulated.
  assert (Hskip : forall pre line post,
       lines = pre ++ line :: post -> spec_skipped line = true ->
       InstallFromConfig w m (pre ++ post) scanErr fs
       = InstallFromConfig w m lines scanErr fs).
  { intros pre line post -> Hs.
    rewrite !InstallFromConfig_spec, (spec_lines_skip w m pre line post fs Hs).
    reflexivity. }
  pose proof (InstallFromConfig_spec w m lines scanErr fs) as Hspec.
  assert (Hacc :
    match scanErr with
    | Some e => snd (spec_lines w m lines fs) ++ [Errorf "error reading config: %w" [] (Some e)]
    | None => snd (spec_lines w m lines fs)
    end = accumulated).
  { unfold accumulated. destruct scanErr; [reflexivity | rewrite app_nil_r; reflexivity]. }
  cbv zeta in Hspec. rewrite Hacc in Hspec. clearbody accumulated. clear Hacc.
  destruct accumulated as [|e l]; simpl in Hspec.
  - exists None. split; [exact Hspec|]. split; [tauto|]. split; [congruence | exact Hskip].
  - eexists. split; [exact Hspec|].
    split; [split; discriminate|]. split; [reflexivity | exact Hskip].
Qed.

(** ** InstallFromConfig and the direct-URL form *)

(** C5 (the code departs from it). A line that is a URL is parsed into a
    font whose name is the last segment of the URL path, and only that name
    is handed to [Install]: the URL is never fetched.  With the archive
    behind the URL available, [Install] on the line itself installs the
    font with source "url"; [InstallFromConfig] on the same line returns nil
    and leaves the file system as it was when no source is registered, and
    installs the like-named font of the registered source otherwise. *)
Theorem InstallFromConfig_URL_line :
  let w := Bench.world in
  let line := Bench.fontURL in
  (exists font, ParseFontSpec w line = Ok (Some font)
                /\ URL font = line /\ Name font = str "TestFont1"
                /\ isURL (Name font) = false)
  /\ (exists fs1,
        Install w (Bench.managerWith []) line Bench.fs0 = (fs1, Return None)
        /\ os_ReadFile (Bench.userFont "TestFont1" ++ [str ".source"]) fs1
           = Some (str "url"))
  /\ InstallFromConfig w (Bench.managerWith []) [line] None Bench.fs0
     = (Bench.fs0, Return None)
  /\ (exists fs2,
        InstallFromConfig w Bench.manager [line] None Bench.fs0 = (fs2, Return None)
        /\ os_ReadFile (Bench.userFont "TestFont1" ++ [str ".source"]) fs2
           = Some (str "testsource")).
Proof.
  intros w line. split; [|split; [|split]].
  - eexists. split; [vm_compute; reflexivity|]. repeat split.
  - eexists. split; [vm_compute; reflexivity|]. vm_compute. reflexivity.
  - vm_compute. reflexivity.
  - eexists. split; [vm_compute; reflexivity|]. vm_compute. reflexivity.
Qed.

(** ** Uninstall and the user directory *)

(** C4 (the code departs from it). The protection test is
    [strings.HasPrefix] on the two path strings.  A system directory
    [/srv/fonts-system] starts with the user directory [/srv/fonts] as a
    string without lying below it: the font installed there is removed.  A
    font file lying directly in the user directory resolves to the user
    directory itself, which is then removed with every font in it. *)
Theorem Uninstall_protection_gap :
  let w := Bench.world in
  (exists fs',
     Uninstall w Bench.siblingManager (str "Foo") Bench.fsSibling = (fs', None)
     /\ ~ descendant [str "srv"; str "fonts"] [str "srv"; str "fonts-system"; str "Foo"]
     /\ fs_lookup [str "srv"; str "fonts-system"; str "Foo"] Bench.fsSibling <> None
     /\ fs_lookup [str "srv"; str "fonts-system"; str "Foo"] fs' = None)
  /\ (exists fs',
     Uninstall w Bench.manager (str "Loose") Bench.fsLoose = (fs', None)
     /\ fs_lookup (Bench.userFont "TestFont1") Bench.fsLoose <> None
     /\ fs_lookup (Bench.tempDir ++ [str "user"]) fs' = None).
Proof.
  intros w. split.
  - eexists. split; [vm_compute; reflexivity|]. split; [|split].
    + intros [rel H]. vm_compute in H. discriminate H.
    + vm_compute. discriminate.
    + vm_compute. reflexivity.
  - eexists. split; [vm_compute; reflexivity|]. split.
    + vm_compute. discriminate.
    + vm_compute. reflexivity.
Qed.

(** ** Counterexamples to the claims as stated *)


(** C3 as stated fails: with TestFont1 under both directories [List]
    returns two entries of that name, the user copy and the system copy. *)
Lemma List_both_counterexample :
  let w := Bench.world in
  let m := Bench.manager in
  exists fonts userCopy systemCopy,
    List w m Bench.fsBoth = Ok fonts
    /\ List.filter (nameIs (str "TestFont1")) fonts = [userCopy; systemCopy]
    /\ Source userCopy = str "testsource"
    /\ Source systemCopy = str "vendor"
    /\ ~ (exists f, List.filter (nameIs (str "TestFont1")) fonts = [f]).
Proof.
  intros w m. eexists _, _, _.
  split; [vm_compute; reflexivity|].
  split; [vm_compute; reflexivity|].
  split; [vm_compute; reflexivity|].
  split; [vm_compute; reflexivity|].
  intros [f H]. vm_compute in H. discriminate H.
Qed.

(** ** The file system: entries of a directory *)

Lemma gostring_eqb_eq a b : gostring_eqb a b = true <-> a = b.
Proof. unfold gostring_eqb. apply bool_decide_eq_true. Qed.

Lemma gostring_eqb_neq a b : gostring_eqb a b = false <-> a <> b.
Proof. unfold gostring_eqb. apply bool_decide_eq_false. Qed.

Lemma gostring_eqb_refl a : gostring_eqb a a = true.
Proof. apply gostring_eqb_eq. reflexivity. Qed.

Lemma entry_lookup_insert_eq c n es : entry_lookup c (entry_insert c n es) = Some n.
Proof.
  induction es as [|[c' n'] es IH]; simpl.
  - rewrite gostring_eqb_refl. reflexivity.
  - destruct (gostring_eqb c c') eqn:E; simpl.
    + rewrite gostring_eqb_refl. reflexivity.
    + destruct (lex_ltb c c'); simpl.
      * rewrite gostring_eqb_refl. reflexivity.
      * rewrite E. exact IH.
Qed.

Lemma entry_lookup_insert_ne c c' n es :
  c <> c' -> entry_lookup c' (entry_insert c n es) = entry_lookup c' es.
Proof.
  intros Hne.
  assert (Hcc : gostring_eqb c' c = false) by (apply gostring_eqb_neq; congruence).
  induction es as [|[x m] es IH]; simpl.
  - rewrite Hcc. reflexivity.
  - destruct (gostring_eqb c x) eqn:E; simpl.
    + apply gostring_eqb_eq in E. subst x. rewrite Hcc. reflexivity.
    + destruct (lex_ltb c x); simpl.
      * rewrite Hcc. reflexivity.
      * rewrite IH. reflexivity.
Qed.

Lemma entry_insert_insert c n1 n2 es :
  entry_insert c n2 (entry_insert c n1 es) = entry_insert c n2 es.
Proof.
  induction es as [|[x m] es IH]; simpl.
  - rewrite gostring_eqb_refl. reflexivity.
  - destruct (gostring_eqb c x) eqn:E; simpl.
    + rewrite gostring_eqb_refl. reflexivity.
    + destruct (lex_ltb c x) eqn:L; simpl.
      * rewrite gostring_eqb_refl. reflexivity.
      * rewrite E, L, IH. reflexivity.
Qed.

(** Where an inserted entry lands: every entry before it has another name
    and is not greater. *)
Lemma entry_insert_split c n es :
  exists pre post,
    entry_insert c n es = pre ++ (c, n) :: post
    /\ Forall (fun e => fst e <> c /\ lex_ltb c (fst e) = false) pre
    /\ incl pre es /\ incl post es.
Proof.
  induction es as [|[x m] es (pre & post & Heq & Hpre & Hin1 & Hin2)]; simpl.
  - exists [], []. split; [reflexivity|]. split; [constructor|].
    split; apply incl_nil_l.
  - destruct (gostring_eqb c x) eqn:E.
    + exists [], es. split; [reflexivity|]. split; [constructor|].
      split; [apply incl_nil_l | apply incl_tl, incl_refl].
    + destruct (lex_ltb c x) eqn:L.
      * exists [], ((x, m) :: es). split; [reflexivity|]. split; [constructor|].
        split; [apply incl_nil_l | apply incl_refl].
      * exists ((x, m) :: pre), post. rewrite Heq.
        split; [reflexivity|]. split; [|split].
        -- constructor; [|exact Hpre]. simpl. split; [|exact L].
           apply gostring_eqb_neq in E. congruence.
        -- apply incl_cons; [left; reflexivity | apply incl_tl; exact Hin1].
        -- apply incl_tl. exact Hin2.
Qed.

(** ** The file system: paths *)

Lemma fs_lookup_app p q n :
  fs_lookup (p ++ q) n =
  match fs_lookup p n with
  | Some m => fs_lookup q m
  | None => None
  end.
Proof.
  revert n. induction p as [|c p IH]; intros n; simpl; [reflexivity|].
  destruct n as [|es]; [reflexivity|].
  destruct (entry_lookup c es); [apply IH | reflexivity].
Qed.


Lemma fs_set_set p n1 n2 n old :
  fs_lookup p n = Some old -> fs_set p n2 (fs_set p n1 n) = fs_set p n2 n.
Proof.
  revert n. induction p as [|c p IH]; intros n; simpl; [reflexivity|].
  destruct n as [|es]; [discriminate|].
  destruct (entry_lookup c es) as [m|] eqn:E; [|discriminate].
  intros H. simpl. rewrite entry_lookup_insert_eq, entry_insert_insert, (IH _ H).
  reflexivity.
Qed.


Lemma os_MkdirAll_focus p q n m :
  fs_lookup p n = Some m ->
  os_MkdirAll (p ++ q) n =
  match os_MkdirAll q m with
  | Some m' => Some (fs_set p m' n)
  | None => None
  end.
Proof.
  revert n. induction p as [|c p IH]; intros n Hl; simpl in *.
  - injection Hl as ->. destruct (os_MkdirAll q m); reflexivity.
  - destruct n as [|es]; [discriminate|].
    destruct (entry_lookup c es) as [mc|] eqn:E; [|discriminate].
    rewrite (IH _ Hl). destruct (os_MkdirAll q m); reflexivity.
Qed.

(** ** Names and joined paths *)













(** ** Extensions and base names *)











(** ** Writing into the directory of a font

    [user] is the font directory of the installer, [d] the sanitized name,
    [dch] the entries of [user/d]. *)









(** ** Files visited by the walk *)

Lemma node_ind' (P : node -> Prop) :
  (forall data, P (File data)) ->
  (forall es, Forall (fun e => P (snd e)) es -> P (Dir es)) ->
  forall n, P n.
Proof.
  intros HF HD.
  fix IH 1. intros [data|es].
  - apply HF.
  - apply HD. induction es as [|[c m] es IHes]; constructor.
    + simpl. apply IH.
    + exact IHes.
Qed.

Lemma visits_Dir p name es :
  visits p name (Dir es)
  = (p, {| fi_Name := name; fi_IsDir := true |}) :: visitsOf p es.
Proof.
  simpl. f_equal. unfold visitsOf.
  induction es as [|[c m] es IH]; simpl; [reflexivity|].
  rewrite IH. reflexivity.
Qed.

Lemma visitsOf_cons p c m es :
  visitsOf p ((c, m) :: es) = visits (p ++ [c]) c m ++ visitsOf p es.
Proof. reflexivity. Qed.

Lemma visitsOf_app p es1 es2 :
  visitsOf p (es1 ++ es2) = visitsOf p es1 ++ visitsOf p es2.
Proof. unfold visitsOf. apply flat_map_app. Qed.


(** A walk whose callback always continues is a fold over the visits. *)
Lemma walk_continue {S : Type} (walkFn : path -> FileInfo -> option error -> S -> S * ctl) :
  (forall p info s, snd (walkFn p info None s) = Continue) ->
  forall n p name s,
    walk walkFn p name n s
    = (fold_left (fun s v => fst (walkFn (fst v) (snd v) None s)) (visits p name n) s,
       Continue).
Proof.
  intros Hc. induction n as [data|es IH] using node_ind'; intros p name s.
  - simpl. specialize (Hc p {| fi_Name := name; fi_IsDir := false |} s).
    destruct (walkFn p _ None s) as [s' c]. simpl in *. subst c. reflexivity.
  - rewrite visits_Dir. cbn [walk fold_left fst snd].
    specialize (Hc p {| fi_Name := name; fi_IsDir := true |} s).
    destruct (walkFn p _ None s) as [s1 c]. cbn [fst snd] in *. subst c.
    generalize s1. clear s s1.
    induction es as [|[c m] es IHes]; intros s.
    + reflexivity.
    + inversion IH as [|? ? Hm Hes]; subst. cbn [snd] in Hm.
      rewrite visitsOf_cons, fold_left_app, Hm. apply IHes. exact Hes.
Qed.

Lemma listFn_continue w dir fs p info fonts :
  snd (listFn w dir fs p info None fonts) = Continue.
Proof.
  unfold listFn. destruct (_ || _); [reflexivity|].
  destruct (hasName _ fonts); reflexivity.
Qed.

(** [listFontsInDir] is the fold of [listStep] over the visits of the
    directory, and fails exactly when the directory does not exist. *)
Lemma listFontsInDir_fold w dir fs n :
  fs_lookup dir fs = Some n ->
  listFontsInDir w dir fs
  = Ok (fold_left (listStep w dir fs) (visits dir (lastName dir) n) []).
Proof.
  intros Hl. unfold listFontsInDir, filepath_Walk. rewrite Hl.
  rewrite (walk_continue (listFn w dir fs) (listFn_continue w dir fs)).
  reflexivity.
Qed.

Lemma listFontsInDir_missing w dir fs :
  fs_lookup dir fs = None ->
  listFontsInDir w dir fs
  = Err (Errorf "walking directory %s: %w" [A_str (pathString dir)]
           (Some (E_sys "lstat" (pathString dir) "no such file or directory"))).
Proof.
  intros Hl. unfold listFontsInDir, filepath_Walk. rewrite Hl. reflexivity.
Qed.

(** ** The fold of the listing *)

Lemma hasName_app n l1 l2 : hasName n (l1 ++ l2) = hasName n l1 || hasName n l2.
Proof. unfold hasName. apply existsb_app. Qed.

Lemma hasName_In n l : hasName n l = true <-> In n (map Name l).
Proof.
  unfold hasName. rewrite existsb_exists, in_map_iff. split.
  - intros (f & Hf & E). apply gostring_eqb_eq in E. eauto.
  - intros (f & E & Hf). exists f. split; [exact Hf|]. apply gostring_eqb_eq. exact E.
Qed.

Lemma listStep_cases w dir fs fonts v :
  listStep w dir fs fonts v = fonts
  \/ (fontVisit v = true
      /\ hasName (fontNameOf dir (fst v) (snd v)) fonts = false
      /\ listStep w dir fs fonts v
         = fonts ++ [readFont w fs (fontNameOf dir (fst v) (snd v)) (fst v)]).
Proof.
  unfold listStep, listFn, fontVisit.
  destruct (fi_IsDir (snd v)); simpl; [left; reflexivity|].
  destruct (isFontFile (fi_Name (snd v))); simpl; [|left; reflexivity].
  destruct (hasName _ fonts) eqn:E; simpl; [left; reflexivity|].
  right. auto.
Qed.

Lemma listStep_font w dir fs fonts v :
  fontVisit v = true ->
  listStep w dir fs fonts v
  = if hasName (fontNameOf dir (fst v) (snd v)) fonts then fonts
    else fonts ++ [readFont w fs (fontNameOf dir (fst v) (snd v)) (fst v)].
Proof.
  unfold listStep, listFn, fontVisit. intros H.
  apply andb_true_iff in H as [H1 H2]. apply negb_true_iff in H1.
  rewrite H1, H2. simpl. destruct (hasName _ fonts); reflexivity.
Qed.

Lemma listStep_other w dir fs fonts v :
  fontVisit v = false -> listStep w dir fs fonts v = fonts.
Proof.
  unfold listStep, listFn, fontVisit. intros H.
  destruct (fi_IsDir (snd v)); simpl in *; [reflexivity|].
  rewrite H. reflexivity.
Qed.

Lemma readFont_Name w fs n p : Name (readFont w fs n p) = n.
Proof. reflexivity. Qed.

(** The walk only appends. *)
Lemma listFold_prefix w dir fs vs fonts :
  exists more, fold_left (listStep w dir fs) vs fonts = fonts ++ more.
Proof.
  revert fonts. induction vs as [|v vs IH]; intros fonts; simpl.
  - exists []. rewrite app_nil_r. reflexivity.
  - destruct (listStep_cases w dir fs fonts v) as [->|(_ & _ & ->)].
    + apply IH.
    + destruct (IH (fonts ++ [readFont w fs (fontNameOf dir (fst v) (snd v)) (fst v)]))
        as [more ->].
      rewrite <- app_assoc. eauto.
Qed.

(** No name is listed twice by one walk. *)
Lemma listFold_NoDup w dir fs vs fonts :
  NoDup (map Name fonts) ->
  NoDup (map Name (fold_left (listStep w dir fs) vs fonts)).
Proof.
  revert fonts. induction vs as [|v vs IH]; intros fonts Hnd; simpl; [exact Hnd|].
  apply IH.
  destruct (listStep_cases w dir fs fonts v) as [->|(_ & Hno & ->)]; [exact Hnd|].
  rewrite map_app. simpl. apply NoDup_app. split; [exact Hnd|]. split.
  - intros x Hx Hx'. apply list_elem_of_In in Hx. apply hasName_In in Hx.
    apply list_elem_of_In in Hx'. destruct Hx' as [<-|[]].
    rewrite Hno in Hx. discriminate.
  - apply NoDup_singleton.
Qed.


(** The entry of a name is read at the first font file visited under that
    name. *)
Lemma listFold_first w dir fs pre v post fonts n :
  hasName n fonts = false ->
  Forall (fun v' => fontVisit v' = true -> fontNameOf dir (fst v') (snd v') <> n) pre ->
  fontVisit v = true ->
  fontNameOf dir (fst v) (snd v) = n ->
  In (readFont w fs n (fst v)) (fold_left (listStep w dir fs) (pre ++ v :: post) fonts).
Proof.
  intros Hno Hpre Hv Hn. revert fonts Hno.
  induction Hpre as [|v' pre Hv' Hpre IH]; intros fonts Hno; simpl.
  - destruct (listFold_prefix w dir fs post (listStep w dir fs fonts v)) as [more ->].
    rewrite (listStep_font w dir fs fonts v Hv), Hn, Hno.
    apply in_or_app. left. apply in_or_app. right. left. reflexivity.
  - apply IH.
    destruct (listStep_cases w dir fs fonts v') as [->|(Hf & _ & ->)]; [exact Hno|].
    rewrite hasName_app, Hno. simpl. rewrite orb_false_r.
    apply gostring_eqb_neq. apply Hv'. exact Hf.
Qed.

(** ** List: the two walks *)

Lemma listFontsInDir_Ok w dir fs fonts :
  listFontsInDir w dir fs = Ok fonts ->
  exists n, fs_lookup dir fs = Some n
            /\ fonts = fold_left (listStep w dir fs) (visits dir (lastName dir) n) [].
Proof.
  destruct (fs_lookup dir fs) as [n|] eqn:Hl.
  - rewrite (listFontsInDir_fold w dir fs n Hl). intros H. injection H as <-. eauto.
  - rewrite (listFontsInDir_missing w dir fs Hl). discriminate.
Qed.

Lemma listFontsInDir_NoDup w dir fs fonts :
  listFontsInDir w dir fs = Ok fonts -> NoDup (map Name fonts).
Proof.
  intros H. apply listFontsInDir_Ok in H as (n & _ & ->).
  apply listFold_NoDup. constructor.
Qed.

Lemma filter_name_absent n l :
  ~ In n (map Name l) -> List.filter (nameIs n) l = [].
Proof.
  induction l as [|f l IH]; simpl; [reflexivity|].
  intros H.
  destruct (nameIs n f) eqn:E; unfold nameIs in E.
  - apply gostring_eqb_eq in E. exfalso. apply H. left. exact E.
  - apply IH. intros Hin. apply H. right. exact Hin.
Qed.

(** In a list without repeated names a name that occurs has exactly one
    entry, which is also the first match. *)
Lemma filter_name_unique n l :
  NoDup (map Name l) -> In n (map Name l) ->
  exists f, List.filter (nameIs n) l = [f] /\ In f l /\ find (nameIs n) l = Some f.
Proof.
  induction l as [|f0 l IH]; simpl; [intros _ []|].
  intros Hnd Hin. apply NoDup_cons in Hnd as [Hnot Hnd].
  rewrite list_elem_of_In in Hnot.
  destruct (nameIs n f0) eqn:E; unfold nameIs in E.
  - apply gostring_eqb_eq in E. subst n.
    exists f0. rewrite (filter_name_absent _ _ Hnot).
    split; [reflexivity|]. split; [left; reflexivity | reflexivity].
  - apply gostring_eqb_neq in E. destruct Hin as [Hin|Hin]; [contradiction|].
    destruct (IH Hnd Hin) as (f & H1 & H2 & H3). exists f.
    split; [exact H1|]. split; [right; exact H2 | exact H3].
Qed.

Lemma find_app_Some {A} (p : A -> bool) l1 l2 x :
  find p l1 = Some x -> find p (l1 ++ l2) = Some x.
Proof.
  induction l1 as [|a l1 IH]; simpl; [discriminate|].
  destruct (p a); [tauto | exact IH].
Qed.

(** C3, as amended. [List] walks the user directory, then the system
    directory, and appends the second list to the first without merging
    them: a name listed by both walks has two entries in the result, the one
    of the user directory first (it is the first match of a lookup by
    name); within one walk a name has one entry. *)
Theorem List_user_then_system (w : World) (m : DefaultManager) (fs : node)
    (paths : FontPaths) (userFonts systemFonts : list Font) (n : gostring) :
  GetFontPaths (platform m) = Ok paths ->
  listFontsInDir w (UserDir paths) fs = Ok userFonts ->
  listFontsInDir w (SystemDir paths) fs = Ok systemFonts ->
  In n (map Name userFonts) ->
  In n (map Name systemFonts) ->
  List w m fs = Ok (userFonts ++ systemFonts)
  /\ exists userCopy systemCopy,
       List.filter (nameIs n) (userFonts ++ systemFonts) = [userCopy; systemCopy]
       /\ List.filter (nameIs n) userFonts = [userCopy]
       /\ List.filter (nameIs n) systemFonts = [systemCopy]
       /\ find (nameIs n) (userFonts ++ systemFonts) = Some userCopy.
Proof.
  intros Hp Hu Hs Hnu Hns. split.
  - unfold List. rewrite Hp, Hu, Hs. reflexivity.
  - destruct (filter_name_unique n userFonts (listFontsInDir_NoDup _ _ _ _ Hu) Hnu)
      as (u & Hfu & _ & Hfind).
    destruct (filter_name_unique n systemFonts (listFontsInDir_NoDup _ _ _ _ Hs) Hns)
      as (s & Hfs & _ & _).
    exists u, s. rewrite List.filter_app, Hfu, Hfs.
    split; [reflexivity|]. split; [reflexivity|]. split; [reflexivity|].
    apply find_app_Some. exact Hfind.
Qed.

Lemma List_user_then_system_witness :
  exists userCopy systemCopy,
    List.filter (nameIs (str "TestFont1"))
      (match List Bench.world Bench.manager Bench.fsBoth with
       | Ok fonts => fonts
       | Err _ => []
       end)
    = [userCopy; systemCopy]
    /\ Source userCopy = str "testsource" /\ Source systemCopy = str "vendor".
Proof.
  destruct (List_user_then_system Bench.world Bench.manager Bench.fsBoth
              {| SystemDir := Bench.tempDir ++ [str "system"];
                 UserDir := Bench.tempDir ++ [str "user"] |}
              (match listFontsInDir Bench.world (Bench.tempDir ++ [str "user"]) Bench.fsBoth with
               | Ok l => l | Err _ => [] end)
              (match listFontsInDir Bench.world (Bench.tempDir ++ [str "system"]) Bench.fsBoth with
               | Ok l => l | Err _ => [] end)
              (str "TestFont1"))
    as [Hlist (u & s & Hboth & Hu & Hs & _)];
    try (vm_compute; reflexivity).
  - vm_compute. left. reflexivity.
  - vm_compute. left. reflexivity.
  - exists u, s. rewrite Hlist. split; [exact Hboth|].
    vm_compute in Hu. vm_compute in Hs.
    injection Hu as <-. injection Hs as <-. split; reflexivity.
Defined.

(** ** What a successful install leaves in the font directory *)







(** ** From a font file on disk to an entry of the listing *)







(** ** Install, then Install again *)







